(** * Index scan executor: row retrieval step and its callers

    Shallow embedding of [IndexScanExecutor] (ee/executors/indexscanexecutor.h).
    The header carries the whole body of the static helper [getNextTuple];
    it is embedded statement by statement in a small state monad whose state
    holds the caller's output tuple, the index cursor and a log of the index
    operations performed.  The members of the class and its constructor are
    embedded as a record.  [p_init], [p_execute] and [outputTuple] are only
    declared in the header; what is said of an execution rests on a model of
    [p_execute] and [outputTuple] made from the specification and marked as
    such. *)

From Stdlib Require Import ZArith Bool List Lia String.
From stdpp Require Import base list.
Import ListNotations.

Open Scope Z_scope.

(* ===================================================================== *)
(** ** Part I.  Definitions                                               *)
(* ===================================================================== *)

(** *** Values, rows and tuples *)

(** Modelled from the spec: the value class [NValue] is declared outside
    the header.  A value is an integer or a string; [VNull] is the content of
    a key slot that has never been written. *)
Inductive NValue : Type :=
| VNull
| VInt (z : Z)
| VString (s : string).

Definition Row : Type := list NValue.

(** [NValueArray]: the parameter bindings of one execution. *)
Definition NValueArray : Type := list NValue.

(** Modelled from the spec: class [TableTuple] is declared in
    common/tabletuple.h, outside the header.  A tuple is a reference to row
    storage, and the reference may be null. *)
Record TableTuple : Type := mkTuple { m_data : option Row }.

Definition nullTuple : TableTuple := mkTuple None.
Definition tupleOf (r : Row) : TableTuple := mkTuple (Some r).

(** [TableTuple::isNullTuple()] *)
Definition isNullTuple (t : TableTuple) : bool :=
  match m_data t with
  | None => true
  | Some _ => false
  end.

(** *** Enumerations used by the executor *)

(** Modelled from the spec: the enum [IndexLookupType] is declared outside
    the header (common/types.h); its members are the lookup types the
    specification lists: equality, greater-than, greater-or-equal, less-than,
    less-or-equal, geo-contains and none. *)
Inductive IndexLookupType : Type :=
| INDEX_LOOKUP_TYPE_INVALID
| INDEX_LOOKUP_TYPE_EQ
| INDEX_LOOKUP_TYPE_GT
| INDEX_LOOKUP_TYPE_GTE
| INDEX_LOOKUP_TYPE_LT
| INDEX_LOOKUP_TYPE_LTE
| INDEX_LOOKUP_TYPE_GEO_CONTAINS.

Definition lookupType_eqb (a b : IndexLookupType) : bool :=
  match a, b with
  | INDEX_LOOKUP_TYPE_INVALID, INDEX_LOOKUP_TYPE_INVALID
  | INDEX_LOOKUP_TYPE_EQ, INDEX_LOOKUP_TYPE_EQ
  | INDEX_LOOKUP_TYPE_GT, INDEX_LOOKUP_TYPE_GT
  | INDEX_LOOKUP_TYPE_GTE, INDEX_LOOKUP_TYPE_GTE
  | INDEX_LOOKUP_TYPE_LT, INDEX_LOOKUP_TYPE_LT
  | INDEX_LOOKUP_TYPE_LTE, INDEX_LOOKUP_TYPE_LTE
  | INDEX_LOOKUP_TYPE_GEO_CONTAINS, INDEX_LOOKUP_TYPE_GEO_CONTAINS => true
  | _, _ => false
  end.

(** Modelled from the spec: the enum [SortDirectionType] is declared outside
    the header; the specification names ascending, descending and
    don't-care. *)
Inductive SortDirectionType : Type :=
| SORT_DIRECTION_TYPE_INVALID
| SORT_DIRECTION_TYPE_ASC
| SORT_DIRECTION_TYPE_DESC.

(** *** The index interface *)

(** Modelled from the spec: class [TableIndex] is declared in
    indexes/tableindex.h, outside the header.  It is an abstract class; the
    executor sees it through virtual calls that take the cursor by reference,
    move it, and return a tuple.  [getNextTuple] uses [nextValueAtKey] and
    [nextValue]; the specification adds the positioning call and the key
    schema, of which only the number of columns matters here. *)
Record TableIndex (Cursor : Type) : Type := mkIndex {
  keyColumnCount : nat;
  positionForLookup :
    IndexLookupType -> SortDirectionType -> Row -> Z -> Cursor;
  nextValueAtKey : Cursor -> TableTuple * Cursor;
  nextValue : Cursor -> TableTuple * Cursor
}.

Arguments keyColumnCount {Cursor} _.
Arguments positionForLookup {Cursor} _ _ _ _ _.
Arguments nextValueAtKey {Cursor} _ _.
Arguments nextValue {Cursor} _ _.

(** *** Calls through the tuple and cursor pointers *)

Inductive IndexOp : Type :=
| OpNextValueAtKey
| OpNextValue.

(** One index operation performed, with the tuple it returned. *)
Record IndexEvent : Type := mkEvent {
  ev_op : IndexOp;
  ev_result : TableTuple
}.

Section CallMonad.

Context {Cursor : Type}.

(** What [getNextTuple] reaches through its pointer arguments: [*tuple],
    [*cursor], and the operations issued on [*index] so far (oldest
    first). *)
Record CallState : Type := mkCall {
  st_tuple : TableTuple;
  st_cursor : Cursor;
  st_trace : list IndexEvent
}.

Definition Call (A : Type) : Type := CallState -> A * CallState.

Definition ret {A : Type} (a : A) : Call A := fun s => (a, s).

Definition bind {A B : Type} (m : Call A) (k : A -> Call B) : Call B :=
  fun s => let (a, s') := m s in k a s'.

(** [*tuple = index->op( *cursor )] for one of the two cursor operations. *)
Definition assignFrom (op : IndexOp) (f : Cursor -> TableTuple * Cursor)
  : Call unit :=
  fun s =>
    let (t, c') := f (st_cursor s) in
    (tt, mkCall t c' (st_trace s ++ [mkEvent op t])).

(** [tuple->isNullTuple()] *)
Definition tupleIsNull : Call bool :=
  fun s => (isNullTuple (st_tuple s), s).

End CallMonad.

Arguments CallState : clear implicits.
Arguments Call : clear implicits.

Declare Scope call_scope.
Delimit Scope call_scope with call.
Notation "x <- c1 ;; c2" := (bind c1 (fun x => c2))
  (at level 100, c1 at next level, right associativity) : call_scope.
Notation "c1 ;; c2" := (bind c1 (fun _ => c2))
  (at level 100, right associativity) : call_scope.

(** *** [IndexScanExecutor::getNextTuple] *)

Section GetNextTuple.

Context {Cursor : Type}.

Local Open Scope call_scope.

(** The helper has two statements.  The first is the guarded at-key probe
    with its early [return true]; [found] tells whether that return was
    taken.  The second is the guarded unconstrained advance followed by the
    final [return ! tuple->isNullTuple()]. *)
Definition getNextTuple (lookupType : IndexLookupType)
  (index : TableIndex Cursor) (activeNumOfSearchKeys : Z)
  : Call Cursor bool :=
  found <-
    (if lookupType_eqb lookupType INDEX_LOOKUP_TYPE_EQ
        || lookupType_eqb lookupType INDEX_LOOKUP_TYPE_GEO_CONTAINS
     then
       assignFrom OpNextValueAtKey (nextValueAtKey index) ;;
       isNull <- tupleIsNull ;;
       ret (negb isNull)
     else ret false) ;;
  if found then ret true
  else
    (if (negb (lookupType_eqb lookupType INDEX_LOOKUP_TYPE_EQ)
         && negb (lookupType_eqb lookupType INDEX_LOOKUP_TYPE_GEO_CONTAINS))
        || (activeNumOfSearchKeys =? 0)
     then assignFrom OpNextValue (nextValue index)
     else ret tt) ;;
    isNull <- tupleIsNull ;;
    ret (negb isNull).

(** [obtainedBy op s s']: the call that took [s] to [s'] ended its index
    operations with [op], and the tuple it left is the result of that
    operation. *)
Definition obtainedBy (op : IndexOp) (s s' : CallState Cursor) : Prop :=
  exists earlier t,
    st_trace s' = st_trace s ++ earlier ++ [mkEvent op t]
    /\ st_tuple s' = t.

End GetNextTuple.

Definition isExactOrGeo (lookupType : IndexLookupType) : Prop :=
  lookupType = INDEX_LOOKUP_TYPE_EQ
  \/ lookupType = INDEX_LOOKUP_TYPE_GEO_CONTAINS.

(** *** The two statements of [getNextTuple] *)

Section GetNextTupleSteps.

Context {Cursor : Type}.

Local Open Scope call_scope.

(** Lines 95-101, the first statement: the guarded at-key probe.  The
    result tells whether its [return true] is taken. *)
Definition probeStep (lookupType : IndexLookupType)
  (index : TableIndex Cursor) : Call Cursor bool :=
  if lookupType_eqb lookupType INDEX_LOOKUP_TYPE_EQ
     || lookupType_eqb lookupType INDEX_LOOKUP_TYPE_GEO_CONTAINS
  then
    assignFrom OpNextValueAtKey (nextValueAtKey index) ;;
    isNull <- tupleIsNull ;;
    ret (negb isNull)
  else ret false.

(** Lines 103-109, the second statement and the final return; control
    reaches them when the first statement did not return. *)
Definition advanceStep (lookupType : IndexLookupType)
  (index : TableIndex Cursor) (activeNumOfSearchKeys : Z)
  : Call Cursor bool :=
  (if (negb (lookupType_eqb lookupType INDEX_LOOKUP_TYPE_EQ)
       && negb (lookupType_eqb lookupType INDEX_LOOKUP_TYPE_GEO_CONTAINS))
      || (activeNumOfSearchKeys =? 0)
   then assignFrom OpNextValue (nextValue index)
   else ret tt) ;;
  isNull <- tupleIsNull ;;
  ret (negb isNull).

End GetNextTupleSteps.

(** *** A list-backed index *)

(** Modelled from the spec: the index and its cursor are external to the
    executor; this instance keeps the rows in the index's native order.  The
    cursor holds the rest of the duplicate chain of the key it was positioned
    on ([m_match]) and the rest of the ordered traversal ([m_keyIter]). *)
Record IndexCursor : Type := mkCursor {
  m_match : list Row;
  m_keyIter : list Row
}.

(** The next row of the duplicate chain, or the null tuple at its end. *)
Definition listNextValueAtKey (c : IndexCursor) : TableTuple * IndexCursor :=
  match m_match c with
  | [] => (nullTuple, c)
  | r :: rest => (tupleOf r, mkCursor rest (m_keyIter c))
  end.

(** The next row in index order, or the null tuple at the end. *)
Definition listNextValue (c : IndexCursor) : TableTuple * IndexCursor :=
  match m_keyIter c with
  | [] => (nullTuple, c)
  | r :: rest => (tupleOf r, mkCursor (m_match c) rest)
  end.

(** Modelled from the spec: the order of keys is the index's own.  Here
    nulls come first, then integers, then strings. *)
Definition NValue_compare (a b : NValue) : comparison :=
  match a, b with
  | VNull, VNull => Eq
  | VNull, _ => Lt
  | _, VNull => Gt
  | VInt x, VInt y => Z.compare x y
  | VInt _, VString _ => Lt
  | VString _, VInt _ => Gt
  | VString x, VString y => String.compare x y
  end.

(** Lexicographic comparison of two keys over their common columns. *)
Fixpoint key_compare (k1 k2 : Row) : comparison :=
  match k1, k2 with
  | a :: k1', b :: k2' =>
      match NValue_compare a b with
      | Eq => key_compare k1' k2'
      | c => c
      end
  | _, _ => Eq
  end.

(** Modelled from the spec: the rows of an index, in native (ascending)
    key order; the key of a row is made of its first [li_keyWidth]
    columns. *)
Record ListIndex : Type := mkListIndex {
  li_keyWidth : nat;
  li_rows : list Row
}.

Definition rowKey (ix : ListIndex) (r : Row) : Row := take (li_keyWidth ix) r.

(** [rowVsKey ix key active r] compares the key of [r] with the first
    [active] slots of the search key. *)
Definition rowVsKey (ix : ListIndex) (key : Row) (active : Z) (r : Row)
  : comparison :=
  key_compare (take (Z.to_nat active) (rowKey ix r))
              (take (Z.to_nat active) key).

Definition is_Eq (c : comparison) : bool :=
  match c with Eq => true | _ => false end.
Definition is_Lt (c : comparison) : bool :=
  match c with Lt => true | _ => false end.
Definition is_Gt (c : comparison) : bool :=
  match c with Gt => true | _ => false end.

Definition inDirection (d : SortDirectionType) (l : list Row) : list Row :=
  match d with
  | SORT_DIRECTION_TYPE_DESC => rev l
  | _ => l
  end.

(** Modelled from the spec: positioning (section 4.3).  With no active
    search key the traversal starts from one end of the index, the end the
    sort direction gives; an exact match positions on the rows equal to the
    key; the range types position on the rows that satisfy the bound. *)
Definition listPositionForLookup (ix : ListIndex)
  (lookupType : IndexLookupType) (d : SortDirectionType) (key : Row)
  (active : Z) : IndexCursor :=
  let sel (p : comparison -> bool) :=
    filter (fun r => p (rowVsKey ix key active r) = true) (li_rows ix) in
  if active <=? 0 then mkCursor [] (inDirection d (li_rows ix))
  else
    match lookupType with
    | INDEX_LOOKUP_TYPE_EQ | INDEX_LOOKUP_TYPE_GEO_CONTAINS =>
        mkCursor (sel is_Eq) (inDirection d (sel is_Gt))
    | INDEX_LOOKUP_TYPE_GT =>
        mkCursor [] (inDirection d (sel is_Gt))
    | INDEX_LOOKUP_TYPE_GTE =>
        mkCursor [] (inDirection d (sel (fun c => negb (is_Lt c))))
    | INDEX_LOOKUP_TYPE_LT =>
        mkCursor [] (inDirection d (sel is_Lt))
    | INDEX_LOOKUP_TYPE_LTE =>
        mkCursor [] (inDirection d (sel (fun c => negb (is_Gt c))))
    | INDEX_LOOKUP_TYPE_INVALID =>
        mkCursor [] (inDirection d (li_rows ix))
    end.

Definition listIndex (ix : ListIndex) : TableIndex IndexCursor :=
  mkIndex IndexCursor (li_keyWidth ix) (listPositionForLookup ix)
          listNextValueAtKey listNextValue.

(** The operations one call issued: the part of the log of [s'] that was
    not yet in the log of [s]. *)
Definition opsOfCall {Cursor : Type} (s s' : CallState Cursor)
  : list IndexOp :=
  map ev_op (drop (length (st_trace s)) (st_trace s')).

(** The rows of Scenario A of the specification: an index on column X over
    (X=1,Y="a"), (X=1,Y="b"), (X=2,Y="c"). *)
Definition scenarioRows : list Row :=
  [ [VInt 1; VString "a"]; [VInt 1; VString "b"]; [VInt 2; VString "c"] ].

Definition scenarioIndex : ListIndex := mkListIndex 1 scenarioRows.

Definition emptyIndex : ListIndex := mkListIndex 1 [].

(** A caller's state on entry: some tuple, the cursor, an empty log. *)
Definition enter {Cursor : Type} (t : TableTuple) (c : Cursor)
  : CallState Cursor := mkCall t c [].

(** *** Plan description *)

(** Modelled from the spec: class [AbstractExpression] is only forward
    declared in the header.  A search-key expression is evaluated against the
    parameter bindings and produces a value, or fails (the specification's
    EvaluationError). *)
Inductive AbstractExpression : Type :=
| ConstantValueExpression (v : NValue)
| ParameterValueExpression (i : nat).

Definition eval (ex : AbstractExpression) (params : NValueArray)
  : option NValue :=
  match ex with
  | ConstantValueExpression v => Some v
  | ParameterValueExpression i => params !! i
  end.

(** Modelled from the spec: the collaborators the executor points to are
    only forward declared in the header; a handle stands for each. *)
Inductive AbstractTempTable : Type := TempTable (id : nat).
Inductive AggregateExecutorBase : Type := AggregateExecutor (id : nat).
Inductive InsertExecutor : Type := InsertExec (id : nat).

(** Modelled from the spec: an output column of the inline projection is a
    direct copy of an input column or a scalar expression over the row. *)
Inductive ProjectionColumn : Type :=
| PassThrough (col : nat)
| Computed (f : NValueArray -> Row -> NValue).

(** Modelled from the spec: class [IndexScanPlanNode] is only forward
    declared in the header.  The fields are those of the specification's
    PlanDescription that an execution reads.  The number of search keys an
    execution evaluates depends on the plan and on the bindings by a rule the
    specification does not give; the plan carries it as
    [pn_activeSearchKeys].  The target index and the inline sub-plan are read
    by initialisation only and are left out. *)
Record IndexScanPlanNode : Type := mkPlanNode {
  pn_lookupType : IndexLookupType;
  pn_sortDirection : SortDirectionType;
  pn_searchKeyExpressions : list AbstractExpression;
  pn_activeSearchKeys : NValueArray -> nat;
  pn_endKeyExpressions : list AbstractExpression;
  pn_predicate : option (NValueArray -> Row -> bool);
  pn_offset : nat;
  pn_limit : option nat;
  pn_projection : option (list ProjectionColumn);
  pn_hasOffsetRankOptimization : bool
}.

(** *** The executor object *)

(** The data members of [IndexScanExecutor], in the order of the header.
    [m_projector] and the two shared arrays only manage memory and are left
    out; the search-key backing store is the key row it holds, the empty row
    standing for [NULL]. *)
Record IndexScanExecutor : Type := mkExecutor {
  m_node : IndexScanPlanNode;
  m_numOfSearchkeys : Z;
  m_projectionNode : option (list ProjectionColumn);
  m_searchKeyArray : list AbstractExpression;
  m_lookupType : IndexLookupType;
  m_sortDirection : SortDirectionType;
  m_hasOffsetRankOptimization : bool;
  m_outputTable : option AbstractTempTable;
  m_searchKeyBackingStore : Row;
  m_aggExec : option AggregateExecutorBase;
  m_insertExec : option InsertExecutor
}.

(** The constructor: its initialiser list sets [m_searchKeyBackingStore],
    [m_aggExec] and [m_insertExec] to [NULL]; the other members keep what the
    storage [raw] held. *)
Definition IndexScanExecutor_new (raw : IndexScanExecutor)
  : IndexScanExecutor :=
  mkExecutor (m_node raw) (m_numOfSearchkeys raw) (m_projectionNode raw)
    (m_searchKeyArray raw) (m_lookupType raw) (m_sortDirection raw)
    (m_hasOffsetRankOptimization raw) (m_outputTable raw)
    [] None None.

Definition setSearchKey (e : IndexScanExecutor) (key : Row)
  : IndexScanExecutor :=
  mkExecutor (m_node e) (m_numOfSearchkeys e) (m_projectionNode e)
    (m_searchKeyArray e) (m_lookupType e) (m_sortDirection e)
    (m_hasOffsetRankOptimization e) (m_outputTable e)
    key (m_aggExec e) (m_insertExec e).

(** *** Output routing *)

(** The rows each sink has been handed, oldest first. *)
Record Sinks : Type := mkSinks {
  toResultTable : list Row;
  toAggregate : list Row;
  toInsert : list Row
}.

Definition noOutput : Sinks := mkSinks [] [] [].

(** Modelled from the spec: the body of [outputTuple] is not in the header.
    The row goes to the inline aggregate consumer if there is one, else to
    the inline insert consumer if there is one, else it is appended to the
    output table. *)
Definition outputTuple (e : IndexScanExecutor) (row : Row) (out : Sinks)
  : Sinks :=
  match m_aggExec e, m_insertExec e, m_outputTable e with
  | Some _, _, _ =>
      mkSinks (toResultTable out) (toAggregate out ++ [row]) (toInsert out)
  | None, Some _, _ =>
      mkSinks (toResultTable out) (toAggregate out) (toInsert out ++ [row])
  | None, None, Some _ =>
      mkSinks (toResultTable out ++ [row]) (toAggregate out) (toInsert out)
  | None, None, None => out
  end.

(** *** Postfilter *)

(** Modelled from the spec: struct [CountingPostfilter] is only forward
    declared in the header.  It is built from the residual predicate, the
    offset, the limit and the eligibility flag (section 6), and counts the
    rows it skipped for the offset and the rows it accepted. *)
Record CountingPostfilter : Type := mkPostfilter {
  pf_predicate : option (Row -> bool);
  pf_offset : nat;
  pf_limit : option nat;
  pf_rankEligible : bool;
  pf_skipped : nat;
  pf_accepted : nat
}.

Inductive PostfilterDecision : Type :=
| RejectAndContinue
| RejectAndStop
| Accept.

(** Modelled from the spec: the limit is reached when the rows counted for
    the offset and the rows accepted together number [limit]; this is the
    reading under which Scenario C of the specification (offset 1, limit 2
    over three rows) yields one row. *)
Definition limitReached (pf : CountingPostfilter) : bool :=
  match pf_limit pf with
  | None => false
  | Some l => (l <=? pf_skipped pf + pf_accepted pf)%nat
  end.

(** Modelled from the spec: the per-row decision (section 4.4).  A row
    that fails the predicate, or that falls within the offset still to skip,
    is rejected and the scan continues; a row that arrives when the limit is
    reached is discarded and the scan stops; any other row is accepted.  The
    eligibility flag takes no part in the decision: section 4.4 makes the
    rank-based skip a way of doing the same work faster, with the same
    rows. *)
Definition pf_eval (pf : CountingPostfilter) (row : Row)
  : PostfilterDecision * CountingPostfilter :=
  if negb (match pf_predicate pf with
           | None => true
           | Some p => p row
           end)
  then (RejectAndContinue, pf)
  else if (pf_skipped pf <? pf_offset pf)%nat
  then (RejectAndContinue,
        mkPostfilter (pf_predicate pf) (pf_offset pf) (pf_limit pf)
          (pf_rankEligible pf) (S (pf_skipped pf)) (pf_accepted pf))
  else if limitReached pf
  then (RejectAndStop, pf)
  else (Accept,
        mkPostfilter (pf_predicate pf) (pf_offset pf) (pf_limit pf)
          (pf_rankEligible pf) (pf_skipped pf) (S (pf_accepted pf))).

(** Modelled from the spec: the postfilter of one execution, built from
    the plan's predicate, offset and limit and from the eligibility flag,
    with both counters at zero. *)
Definition newPostfilter (e : IndexScanExecutor) (params : NValueArray)
  : CountingPostfilter :=
  let n := m_node e in
  mkPostfilter
    (match pn_predicate n with
     | None => None
     | Some p => Some (p params)
     end)
    (pn_offset n) (pn_limit n) (m_hasOffsetRankOptimization e) O O.

(** *** Execution *)

Inductive ExecError : Type :=
| EvaluationError.

(** How an execution ends.  [OutOfFuel] is not an outcome of the program:
    it says that the budget of row fetches given to the model was spent
    before the scan ended. *)
Inductive Outcome : Type :=
| Completed (out : Sinks)
| Aborted (err : ExecError)
| OutOfFuel.

(** Modelled from the spec: search-key construction.  The expressions are
    evaluated in order and each value is written into its slot of the
    buffer, in place; the first failing evaluation aborts, leaving the slots
    written so far. *)
Fixpoint buildSearchKey (exprs : list AbstractExpression)
  (params : NValueArray) (slot : nat) (buf : Row) : bool * Row :=
  match exprs with
  | [] => (true, buf)
  | ex :: rest =>
      match eval ex params with
      | None => (false, buf)
      | Some v => buildSearchKey rest params (S slot) (<[slot := v]> buf)
      end
  end.

Definition projectColumn (params : NValueArray) (row : Row)
  (c : ProjectionColumn) : NValue :=
  match c with
  | PassThrough col => default VNull (row !! col)
  | Computed f => f params row
  end.

(** Modelled from the spec: the number of active search keys of one
    execution (section 4.2): what the plan gives for the bindings, and never
    more than the plan's maximum. *)
Definition activeKeyCount (e : IndexScanExecutor) (params : NValueArray)
  : nat :=
  Nat.min (pn_activeSearchKeys (m_node e) params)
          (Z.to_nat (m_numOfSearchkeys e)).

Section Execute.

Context {Cursor : Type}.
Variable index : TableIndex Cursor.
Variable e : IndexScanExecutor.
Variable params : NValueArray.

(** Modelled from the spec: inline projection of an accepted row. *)
Definition project (row : Row) : Row :=
  match m_projectionNode e with
  | None => row
  | Some cols => map (projectColumn params row) cols
  end.

(** Modelled from the spec: the end key (sections 4.2 and 4.3).  The
    end-key expressions are evaluated like the search key, into a second
    buffer, and a candidate row whose key lies above that buffer ends a scan.
    Section 2 has only the search key evaluated before the cursor is
    positioned, so the end key is evaluated where a candidate row is compared
    with it; [None] is a failed evaluation. *)
Definition beyondEndKey (row : Row) : option bool :=
  match pn_endKeyExpressions (m_node e) with
  | [] => Some false
  | exprs =>
      let (ok, endKey) :=
        buildSearchKey exprs params O (replicate (length exprs) VNull) in
      if ok then
        Some (is_Gt (key_compare (take (keyColumnCount index) row) endKey))
      else None
  end.

(** Modelled from the spec: the loop of [p_execute].  Each turn fetches a
    candidate row with [getNextTuple], stops if the row lies beyond the end
    key, lets the postfilter decide, and projects and routes an accepted row.
    The loop ends when [getNextTuple] returns false, at the end key, or when
    the postfilter says stop.  [fuel] bounds the number of fetches.  The
    branch for a true result with a null tuple is never taken
    ([getNextTuple_flag]). *)
Fixpoint scanLoop (fuel : nat) (st : CallState Cursor)
  (pf : CountingPostfilter) (out : Sinks) : Outcome :=
  match fuel with
  | O => OutOfFuel
  | S fuel' =>
      let (more, st') :=
        getNextTuple (m_lookupType e) index
          (Z.of_nat (activeKeyCount e params)) st in
      if more then
        match m_data (st_tuple st') with
        | None => Completed out
        | Some row =>
            match beyondEndKey row with
            | None => Aborted EvaluationError
            | Some true => Completed out
            | Some false =>
                match pf_eval pf row with
                | (RejectAndContinue, pf') => scanLoop fuel' st' pf' out
                | (RejectAndStop, _) => Completed out
                | (Accept, pf') =>
                    scanLoop fuel' st' pf' (outputTuple e (project row) out)
                end
            end
        end
      else Completed out
  end.

(** Modelled from the spec: the scan of one execution, once the search key
    is built: position a fresh cursor for the active keys, then loop.  The
    rows are produced by per-row counting whatever the eligibility flag: the
    specification gives no mechanism for the rank-based skip and requires
    the same rows of it. *)
Definition scan (key : Row) (fuel : nat) : Outcome :=
  let cursor :=
    positionForLookup index (m_lookupType e) (m_sortDirection e) key
      (Z.of_nat (activeKeyCount e params)) in
  scanLoop fuel (enter nullTuple cursor) (newPostfilter e params) noOutput.

(** Modelled from the spec: the body of [p_execute] is not in the header.
    One execution evaluates the active search keys into the executor's
    buffer and then scans; the executor it returns is the one the next
    execution starts from. *)
Definition p_execute (fuel : nat) : Outcome * IndexScanExecutor :=
  let (ok, key) :=
    buildSearchKey (take (activeKeyCount e params) (m_searchKeyArray e))
      params O (m_searchKeyBackingStore e) in
  if ok then (scan key fuel, setSearchKey e key)
  else (Aborted EvaluationError, setSearchKey e key).

End Execute.

(** Rows left to visit from a cursor of the list-backed index. *)
Definition cursorSize (c : IndexCursor) : nat :=
  (length (m_match c) + length (m_keyIter c))%nat.

(** *** Sample plans and executors *)

(** Exact match on the first parameter. *)
Definition exactPlan : IndexScanPlanNode :=
  mkPlanNode INDEX_LOOKUP_TYPE_EQ SORT_DIRECTION_TYPE_ASC
    [ParameterValueExpression 0] (fun _ => 1%nat) [] None O None None false.

(** Exact match whose key is active only when the parameter is bound. *)
Definition optionalKeyPlan : IndexScanPlanNode :=
  mkPlanNode INDEX_LOOKUP_TYPE_EQ SORT_DIRECTION_TYPE_ASC
    [ParameterValueExpression 0] (fun params => length params) [] None
    O None None false.

(** Rows with key at least the first parameter, ascending, up to the end
    key given by the second, projecting column Y. *)
Definition rangePlan : IndexScanPlanNode :=
  mkPlanNode INDEX_LOOKUP_TYPE_GTE SORT_DIRECTION_TYPE_ASC
    [ParameterValueExpression 0] (fun _ => 1%nat)
    [ParameterValueExpression 1] None O None (Some [PassThrough 1]) false.

(** Full scan, offset 1, limit 2 (Scenario C). *)
Definition fullScanPlan : IndexScanPlanNode :=
  mkPlanNode INDEX_LOOKUP_TYPE_INVALID SORT_DIRECTION_TYPE_ASC []
    (fun _ => O) [] None 1%nat (Some 2%nat) None false.

(** The members as section 4.1 has initialisation leave them for a plan
    without inline consumer, over an index whose key has one column. *)
Definition executorOf (node : IndexScanPlanNode) : IndexScanExecutor :=
  mkExecutor node (Z.of_nat (length (pn_searchKeyExpressions node)))
    (pn_projection node) (pn_searchKeyExpressions node)
    (pn_lookupType node) (pn_sortDirection node)
    (pn_hasOffsetRankOptimization node) (Some (TempTable 0))
    [VNull] None None.

(** The rows of Scenario C: X in {1,2,3}. *)
Definition scenarioCIndex : ListIndex :=
  mkListIndex 1 [[VInt 1]; [VInt 2]; [VInt 3]].

(** *** Sequences of calls *)

(** [n] consecutive calls of [getNextTuple] with the same arguments, each
    starting from the state the previous one left, whatever it returned; the
    returned booleans are listed in order. *)
Fixpoint callRepeatedly {Cursor : Type} (n : nat)
  (lookupType : IndexLookupType) (index : TableIndex Cursor) (a : Z)
  (s : CallState Cursor) : list bool * CallState Cursor :=
  match n with
  | O => ([], s)
  | S n' =>
      let (b, s1) := getNextTuple lookupType index a s in
      let (bs, s2) := callRepeatedly n' lookupType index a s1 in
      (b :: bs, s2)
  end.

(** The index operation an [IndexOp] names. *)
Definition applyOp {Cursor : Type} (index : TableIndex Cursor) (op : IndexOp)
  (c : Cursor) : TableTuple * Cursor :=
  match op with
  | OpNextValueAtKey => nextValueAtKey index c
  | OpNextValue => nextValue index c
  end.

(** Issuing a list of operations on a cursor, one after the other: the
    events they produce and the cursor they leave. *)
Fixpoint replay {Cursor : Type} (index : TableIndex Cursor)
  (ops : list IndexOp) (c : Cursor) : list IndexEvent * Cursor :=
  match ops with
  | [] => ([], c)
  | op :: rest =>
      let (t, c1) := applyOp index op c in
      let (evs, c2) := replay index rest c1 in
      (mkEvent op t :: evs, c2)
  end.

(** The cursor after [n] applications of one operation. *)
Fixpoint cursorAfter {Cursor : Type} (step : Cursor -> TableTuple * Cursor)
  (n : nat) (c : Cursor) : Cursor :=
  match n with
  | O => c
  | S n' => cursorAfter step n' (snd (step c))
  end.

(** The test of the first [if] of [getNextTuple]. *)
Definition exactOrGeo (lookupType : IndexLookupType) : bool :=
  lookupType_eqb lookupType INDEX_LOOKUP_TYPE_EQ
  || lookupType_eqb lookupType INDEX_LOOKUP_TYPE_GEO_CONTAINS.

(* ===================================================================== *)
(** ** Part II.  Properties                                               *)
(* ===================================================================== *)


(** *** The two shapes of a call *)

Section GetNextTupleFacts.

Context {Cursor : Type}.
Implicit Types (index : TableIndex Cursor) (s : CallState Cursor).

Lemma isExactOrGeo_test (lookupType : IndexLookupType) :
  isExactOrGeo lookupType ->
  lookupType_eqb lookupType INDEX_LOOKUP_TYPE_EQ
  || lookupType_eqb lookupType INDEX_LOOKUP_TYPE_GEO_CONTAINS = true.
Proof. intros [-> | ->]; reflexivity. Qed.

Lemma not_isExactOrGeo_test (lookupType : IndexLookupType) :
  ~ isExactOrGeo lookupType ->
  lookupType_eqb lookupType INDEX_LOOKUP_TYPE_EQ
  || lookupType_eqb lookupType INDEX_LOOKUP_TYPE_GEO_CONTAINS = false.
Proof.
  unfold isExactOrGeo; intros H.
  destruct lookupType; try reflexivity; exfalso; apply H; auto.
Qed.

Lemma isExactOrGeo_dec (lookupType : IndexLookupType) :
  {isExactOrGeo lookupType} + {~ isExactOrGeo lookupType}.
Proof.
  unfold isExactOrGeo.
  destruct lookupType; try (left; auto; fail);
    right; intros [H | H]; discriminate H.
Qed.

(** A call with an exact-match or geo-contains lookup type. *)
Lemma getNextTuple_exact lookupType index a s :
  isExactOrGeo lookupType ->
  getNextTuple lookupType index a s =
  let (t, c1) := nextValueAtKey index (st_cursor s) in
  let s1 := mkCall t c1 (st_trace s ++ [mkEvent OpNextValueAtKey t]) in
  if isNullTuple t then
    if a =? 0 then
      let (t2, c2) := nextValue index c1 in
      (negb (isNullTuple t2),
       mkCall t2 c2 (st_trace s1 ++ [mkEvent OpNextValue t2]))
    else (false, s1)
  else (true, s1).
Proof.
  intros H. unfold getNextTuple, bind, assignFrom, tupleIsNull, ret.
  rewrite (isExactOrGeo_test _ H).
  destruct (nextValueAtKey index (st_cursor s)) as [t c1]; simpl.
  destruct (isNullTuple t) eqn:Ht; simpl; [| reflexivity].
  assert (Hn : negb (lookupType_eqb lookupType INDEX_LOOKUP_TYPE_EQ)
               && negb (lookupType_eqb lookupType
                          INDEX_LOOKUP_TYPE_GEO_CONTAINS) = false)
    by (destruct H as [-> | ->]; reflexivity).
  rewrite Hn; simpl.
  destruct (a =? 0); simpl.
  - destruct (nextValue index c1) as [t2 c2]; reflexivity.
  - rewrite Ht; reflexivity.
Qed.

(** A call with any other lookup type. *)
Lemma getNextTuple_range lookupType index a s :
  ~ isExactOrGeo lookupType ->
  getNextTuple lookupType index a s =
  let (t, c1) := nextValue index (st_cursor s) in
  (negb (isNullTuple t),
   mkCall t c1 (st_trace s ++ [mkEvent OpNextValue t])).
Proof.
  intros H. unfold getNextTuple, bind, assignFrom, tupleIsNull, ret.
  rewrite (not_isExactOrGeo_test _ H); simpl.
  assert (Hn : negb (lookupType_eqb lookupType INDEX_LOOKUP_TYPE_EQ)
               && negb (lookupType_eqb lookupType
                          INDEX_LOOKUP_TYPE_GEO_CONTAINS) = true).
  { apply not_isExactOrGeo_test in H. apply orb_false_elim in H.
    destruct H as [-> ->]; reflexivity. }
  rewrite Hn; simpl.
  destruct (nextValue index (st_cursor s)) as [t c1]; reflexivity.
Qed.

Lemma opsOfCall_app s (t : TableTuple) (c : Cursor) (evs : list IndexEvent) :
  opsOfCall s (mkCall t c (st_trace s ++ evs)) = map ev_op evs.
Proof. unfold opsOfCall; simpl. now rewrite drop_app_length. Qed.

(** Whatever follows, an exact-match or geo-contains call begins with the
    at-key probe. *)
Lemma getNextTuple_exact_starts_with_probe lookupType index a s :
  isExactOrGeo lookupType ->
  exists later,
    opsOfCall s (snd (getNextTuple lookupType index a s))
    = OpNextValueAtKey :: later.
Proof.
  intros Hlt.
  rewrite (getNextTuple_exact _ _ _ _ Hlt).
  destruct (nextValueAtKey index (st_cursor s)) as [t c1]; simpl.
  destruct (isNullTuple t).
  - destruct (a =? 0).
    + destruct (nextValue index c1) as [t2 c2]; simpl.
      rewrite <- app_assoc, opsOfCall_app; simpl. eauto.
    + simpl. rewrite opsOfCall_app; simpl. eauto.
  - simpl. rewrite opsOfCall_app; simpl. eauto.
Qed.

End GetNextTupleFacts.

(** Case analysis on the lookup type of a call, rewriting the call to the
    shape it has in each case. *)
Ltac by_call_shape lookupType H :=
  destruct (isExactOrGeo_dec lookupType) as [H | H];
  [ rewrite !(getNextTuple_exact _ _ _ _ H)
  | rewrite !(getNextTuple_range _ _ _ _ H) ].

(** The returned boolean always describes the tuple left behind. *)
Lemma getNextTuple_flag
  {Cursor : Type} (lookupType : IndexLookupType) (index : TableIndex Cursor)
  (a : Z) (s : CallState Cursor) :
  fst (getNextTuple lookupType index a s)
  = negb (isNullTuple (st_tuple (snd (getNextTuple lookupType index a s)))).
Proof.
  by_call_shape lookupType Hlt.
  - destruct (nextValueAtKey index (st_cursor s)) as [t c1]; simpl.
    destruct (isNullTuple t) eqn:Ht; simpl.
    + destruct (a =? 0); simpl.
      * destruct (nextValue index c1) as [t2 c2]; reflexivity.
      * now rewrite Ht.
    + now rewrite Ht.
  - destruct (nextValue index (st_cursor s)) as [t c1]; reflexivity.
Qed.

Lemma getNextTuple_true_row
  {Cursor : Type} (lookupType : IndexLookupType) (index : TableIndex Cursor)
  (a : Z) (s s' : CallState Cursor) :
  getNextTuple lookupType index a s = (true, s') ->
  exists row, m_data (st_tuple s') = Some row.
Proof.
  intros H. pose proof (getNextTuple_flag lookupType index a s) as Hf.
  rewrite H in Hf; simpl in Hf. unfold isNullTuple in Hf.
  destruct (m_data (st_tuple s')) as [row |]; [eauto | discriminate Hf].
Qed.

(** *** Properties of [getNextTuple] *)

(** C1.  With an exact-match or geo-contains lookup type and at least one
    active search key, a call that finds the duplicate chain exhausted
    ([nextValueAtKey] returns the null tuple) returns false, and the only
    index operation it issued is that probe: [nextValue] is not called. *)
Theorem getNextTuple_exhausted_chain_ends_scan
  {Cursor : Type} (lookupType : IndexLookupType) (index : TableIndex Cursor)
  (a : Z) (s : CallState Cursor) :
  isExactOrGeo lookupType ->
  1 <= a ->
  isNullTuple (fst (nextValueAtKey index (st_cursor s))) = true ->
  fst (getNextTuple lookupType index a s) = false
  /\ opsOfCall s (snd (getNextTuple lookupType index a s))
     = [OpNextValueAtKey]
  /\ ~ In OpNextValue (opsOfCall s (snd (getNextTuple lookupType index a s))).
Proof.
  intros Hlt Ha Hnull.
  rewrite (getNextTuple_exact _ _ _ _ Hlt).
  destruct (nextValueAtKey index (st_cursor s)) as [t c1]; simpl in *.
  rewrite Hnull.
  assert (Hz : (a =? 0) = false) by (apply Z.eqb_neq; lia).
  rewrite Hz; simpl. rewrite opsOfCall_app; simpl.
  repeat split; try reflexivity.
  intros [H | []]; discriminate H.
Qed.

Lemma getNextTuple_exhausted_chain_ends_scan_witness :
  let s := enter nullTuple (mkCursor [] scenarioRows) in
  fst (getNextTuple INDEX_LOOKUP_TYPE_EQ (listIndex scenarioIndex) 1 s)
  = false
  /\ opsOfCall s
       (snd (getNextTuple INDEX_LOOKUP_TYPE_EQ (listIndex scenarioIndex) 1 s))
     = [OpNextValueAtKey]
  /\ ~ In OpNextValue
         (opsOfCall s
            (snd (getNextTuple INDEX_LOOKUP_TYPE_EQ
                    (listIndex scenarioIndex) 1 s))).
Proof.
  intros s.
  apply (getNextTuple_exhausted_chain_ends_scan
           INDEX_LOOKUP_TYPE_EQ (listIndex scenarioIndex) 1 s).
  - left; reflexivity.
  - lia.
  - reflexivity.
Defined.

(** C3.  With an exact-match or geo-contains lookup type the first index
    operation of a call is the at-key probe; when the probe returns a
    non-null row the call returns true with exactly that row in the caller's
    tuple, the cursor as the probe left it, and no other index operation. *)
Theorem getNextTuple_exact_probe_first
  {Cursor : Type} (lookupType : IndexLookupType) (index : TableIndex Cursor)
  (a : Z) (s : CallState Cursor) :
  isExactOrGeo lookupType ->
  (exists later,
      opsOfCall s (snd (getNextTuple lookupType index a s))
      = OpNextValueAtKey :: later)
  /\ (isNullTuple (fst (nextValueAtKey index (st_cursor s))) = false ->
      fst (getNextTuple lookupType index a s) = true
      /\ st_tuple (snd (getNextTuple lookupType index a s))
         = fst (nextValueAtKey index (st_cursor s))
      /\ st_cursor (snd (getNextTuple lookupType index a s))
         = snd (nextValueAtKey index (st_cursor s))
      /\ opsOfCall s (snd (getNextTuple lookupType index a s))
         = [OpNextValueAtKey]).
Proof.
  intros Hlt.
  split; [exact (getNextTuple_exact_starts_with_probe _ index a s Hlt) |].
  rewrite (getNextTuple_exact _ _ _ _ Hlt).
  destruct (nextValueAtKey index (st_cursor s)) as [t c1]; simpl.
  intros Ht; rewrite Ht; simpl.
  rewrite opsOfCall_app; simpl. repeat split; reflexivity.
Qed.

Lemma getNextTuple_exact_probe_first_witness :
  let s := enter nullTuple
             (positionForLookup (listIndex scenarioIndex)
                INDEX_LOOKUP_TYPE_EQ SORT_DIRECTION_TYPE_ASC [VInt 1] 1) in
  let r := getNextTuple INDEX_LOOKUP_TYPE_EQ (listIndex scenarioIndex) 1 s in
  fst r = true
  /\ st_tuple (snd r) = tupleOf [VInt 1; VString "a"]
  /\ opsOfCall s (snd r) = [OpNextValueAtKey].
Proof.
  intros s r.
  destruct (getNextTuple_exact_probe_first
              INDEX_LOOKUP_TYPE_EQ (listIndex scenarioIndex) 1 s
              (or_introl eq_refl)) as [_ H].
  destruct (H eq_refl) as (Hb & Ht & _ & Hops).
  split; [exact Hb | split; [exact Ht | exact Hops]].
Defined.

(** C4.  For every lookup type and every count of active search keys, a
    call returns true exactly when the tuple it leaves in the caller's output
    parameter is not the null tuple. *)
Theorem getNextTuple_true_iff_tuple_not_null
  {Cursor : Type} (lookupType : IndexLookupType) (index : TableIndex Cursor)
  (a : Z) (s : CallState Cursor) :
  fst (getNextTuple lookupType index a s) = true
  <-> isNullTuple (st_tuple (snd (getNextTuple lookupType index a s)))
      = false.
Proof.
  by_call_shape lookupType Hlt.
  - destruct (nextValueAtKey index (st_cursor s)) as [t c1]; simpl.
    destruct (isNullTuple t) eqn:Ht; simpl.
    + destruct (a =? 0); simpl.
      * destruct (nextValue index c1) as [t2 c2]; simpl.
        destruct (isNullTuple t2); simpl; split; congruence.
      * rewrite Ht; split; congruence.
    + rewrite Ht; split; congruence.
  - destruct (nextValue index (st_cursor s)) as [t c1]; simpl.
    destruct (isNullTuple t); simpl; split; congruence.
Qed.

(** C9.  With an exact-match or geo-contains lookup type and zero active
    search keys, a call first issues the at-key probe and, when the probe
    returns the null tuple, goes on to [nextValue] on the cursor the probe
    left, within the same call; the tuple, the cursor and the returned
    boolean are then those of that second operation. *)
Theorem getNextTuple_exact_zero_keys_falls_through
  {Cursor : Type} (lookupType : IndexLookupType) (index : TableIndex Cursor)
  (s : CallState Cursor) :
  isExactOrGeo lookupType ->
  (exists later,
      opsOfCall s (snd (getNextTuple lookupType index 0 s))
      = OpNextValueAtKey :: later)
  /\ (isNullTuple (fst (nextValueAtKey index (st_cursor s))) = true ->
      let adv := nextValue index (snd (nextValueAtKey index (st_cursor s))) in
      opsOfCall s (snd (getNextTuple lookupType index 0 s))
      = [OpNextValueAtKey; OpNextValue]
      /\ st_tuple (snd (getNextTuple lookupType index 0 s)) = fst adv
      /\ st_cursor (snd (getNextTuple lookupType index 0 s)) = snd adv
      /\ fst (getNextTuple lookupType index 0 s)
         = negb (isNullTuple (fst adv))).
Proof.
  intros Hlt.
  split; [exact (getNextTuple_exact_starts_with_probe _ index 0 s Hlt) |].
  rewrite (getNextTuple_exact _ _ _ _ Hlt).
  destruct (nextValueAtKey index (st_cursor s)) as [t c1]; simpl.
  intros Ht; rewrite Ht.
  destruct (nextValue index c1) as [t2 c2]; simpl.
  rewrite <- app_assoc, opsOfCall_app; simpl.
  repeat split; reflexivity.
Qed.

Lemma getNextTuple_exact_zero_keys_falls_through_witness :
  let s := enter nullTuple
             (positionForLookup (listIndex scenarioIndex)
                INDEX_LOOKUP_TYPE_EQ SORT_DIRECTION_TYPE_ASC [] 0) in
  let r := getNextTuple INDEX_LOOKUP_TYPE_EQ (listIndex scenarioIndex) 0 s in
  opsOfCall s (snd r) = [OpNextValueAtKey; OpNextValue]
  /\ st_tuple (snd r) = tupleOf [VInt 1; VString "a"]
  /\ fst r = true.
Proof.
  intros s r.
  destruct (getNextTuple_exact_zero_keys_falls_through
              INDEX_LOOKUP_TYPE_EQ (listIndex scenarioIndex) s
              (or_introl eq_refl)) as [_ H].
  destruct (H eq_refl) as (Hops & Ht & _ & Hb).
  split; [exact Hops | split; [exact Ht | exact Hb]].
Defined.

(** C10.  On every path a call assigns the caller's tuple from an index
    operation of that same call before it returns: the tuple it leaves is the
    result of the last operation it issued, whatever the tuple held on entry,
    and the returned boolean describes that tuple. *)
Theorem getNextTuple_always_assigns
  {Cursor : Type} (lookupType : IndexLookupType) (index : TableIndex Cursor)
  (a : Z) (s : CallState Cursor) :
  (exists earlier ev,
      st_trace (snd (getNextTuple lookupType index a s))
      = st_trace s ++ earlier ++ [ev]
      /\ st_tuple (snd (getNextTuple lookupType index a s)) = ev_result ev)
  /\ (forall t0 : TableTuple,
         getNextTuple lookupType index a
           (mkCall t0 (st_cursor s) (st_trace s))
         = getNextTuple lookupType index a s)
  /\ fst (getNextTuple lookupType index a s)
     = negb (isNullTuple (st_tuple (snd (getNextTuple lookupType index a s)))).
Proof.
  split; [| split].
  - by_call_shape lookupType Hlt.
    + destruct (nextValueAtKey index (st_cursor s)) as [t c1]; simpl.
      destruct (isNullTuple t); simpl.
      * destruct (a =? 0); simpl.
        -- destruct (nextValue index c1) as [t2 c2]; simpl.
           exists [mkEvent OpNextValueAtKey t], (mkEvent OpNextValue t2).
           rewrite <- app_assoc. split; reflexivity.
        -- exists [], (mkEvent OpNextValueAtKey t). split; reflexivity.
      * exists [], (mkEvent OpNextValueAtKey t). split; reflexivity.
    + destruct (nextValue index (st_cursor s)) as [t c1]; simpl.
      exists [], (mkEvent OpNextValue t). split; reflexivity.
  - intros t0. by_call_shape lookupType Hlt; reflexivity.
  - apply getNextTuple_flag.
Qed.

(** *** The second statement of [getNextTuple] *)

Section SecondStatement.

Context {Cursor : Type}.
Implicit Types (index : TableIndex Cursor) (s : CallState Cursor).

(** [getNextTuple] is its two statements in sequence, the second being
    reached when the first did not return. *)
Lemma getNextTuple_steps lookupType index a s :
  getNextTuple lookupType index a s
  = (let (found, s1) := probeStep lookupType index s in
     if found then (true, s1) else advanceStep lookupType index a s1).
Proof.
  unfold getNextTuple, probeStep, advanceStep, bind, tupleIsNull, ret.
  destruct (lookupType_eqb lookupType INDEX_LOOKUP_TYPE_EQ
            || lookupType_eqb lookupType INDEX_LOOKUP_TYPE_GEO_CONTAINS).
  - destruct (assignFrom OpNextValueAtKey (nextValueAtKey index) s)
      as [u s1].
    destruct (negb (isNullTuple (st_tuple s1))); reflexivity.
  - reflexivity.
Qed.

Lemma getNextTuple_second_statement lookupType index a s :
  fst (probeStep lookupType index s) = false ->
  getNextTuple lookupType index a s
  = advanceStep lookupType index a (snd (probeStep lookupType index s)).
Proof.
  intros H. rewrite getNextTuple_steps.
  destruct (probeStep lookupType index s) as [found s1]; simpl in *.
  now subst found.
Qed.

(** The state in which the second statement is reached. *)
Lemma probeStep_state lookupType index s :
  snd (probeStep lookupType index s)
  = if exactOrGeo lookupType then
      mkCall (fst (nextValueAtKey index (st_cursor s)))
             (snd (nextValueAtKey index (st_cursor s)))
             (st_trace s
              ++ [mkEvent OpNextValueAtKey
                    (fst (nextValueAtKey index (st_cursor s)))])
    else s.
Proof.
  unfold probeStep, exactOrGeo, bind, assignFrom, tupleIsNull, ret.
  destruct (lookupType_eqb lookupType INDEX_LOOKUP_TYPE_EQ
            || lookupType_eqb lookupType INDEX_LOOKUP_TYPE_GEO_CONTAINS);
    [| reflexivity].
  destruct (nextValueAtKey index (st_cursor s)) as [t c1]; reflexivity.
Qed.

(** A range call always reaches the second statement. *)
Lemma probeStep_range lookupType index s :
  ~ isExactOrGeo lookupType ->
  probeStep lookupType index s = (false, s).
Proof.
  intros H. unfold probeStep. now rewrite (not_isExactOrGeo_test _ H).
Qed.

(** With a range type or no active key, the second statement assigns the
    tuple from [nextValue] on the cursor it finds. *)
Lemma advanceStep_advances lookupType index a s :
  ~ isExactOrGeo lookupType \/ a = 0 ->
  advanceStep lookupType index a s
  = (negb (isNullTuple (fst (nextValue index (st_cursor s)))),
     mkCall (fst (nextValue index (st_cursor s)))
            (snd (nextValue index (st_cursor s)))
            (st_trace s
             ++ [mkEvent OpNextValue (fst (nextValue index (st_cursor s)))])).
Proof.
  intros H. unfold advanceStep, bind, assignFrom, tupleIsNull, ret.
  assert (Hc : negb (lookupType_eqb lookupType INDEX_LOOKUP_TYPE_EQ)
               && negb (lookupType_eqb lookupType
                          INDEX_LOOKUP_TYPE_GEO_CONTAINS)
               || (a =? 0) = true).
  { destruct H as [H | ->].
    - apply not_isExactOrGeo_test in H. apply orb_false_elim in H.
      destruct H as [-> ->]. reflexivity.
    - apply orb_true_r. }
  rewrite Hc.
  destruct (nextValue index (st_cursor s)) as [t c1]; reflexivity.
Qed.

End SecondStatement.

(** C2.  In every call whose lookup type is a range type, or whose count
    of active search keys is zero, the second statement of [getNextTuple]
    (reached when the at-key probe of the first did not return a row)
    obtains the candidate tuple from [nextValue], with no key constraint, on
    the cursor it finds: the entry cursor for a range type, the cursor the
    probe left otherwise.  The call leaves that tuple and the cursor
    [nextValue] left, [nextValue] is the last operation it issued (the only
    one for a range type), and the returned boolean tells whether the tuple
    is a row. *)
Theorem getNextTuple_range_or_zero_keys_advances
  {Cursor : Type} (lookupType : IndexLookupType) (index : TableIndex Cursor)
  (a : Z) (s : CallState Cursor) :
  ~ isExactOrGeo lookupType \/ a = 0 ->
  fst (probeStep lookupType index s) = false ->
  getNextTuple lookupType index a s
  = advanceStep lookupType index a (snd (probeStep lookupType index s))
  /\ st_cursor (snd (probeStep lookupType index s))
     = (if exactOrGeo lookupType
        then snd (nextValueAtKey index (st_cursor s))
        else st_cursor s)
  /\ st_tuple (snd (getNextTuple lookupType index a s))
     = fst (nextValue index (st_cursor (snd (probeStep lookupType index s))))
  /\ st_cursor (snd (getNextTuple lookupType index a s))
     = snd (nextValue index (st_cursor (snd (probeStep lookupType index s))))
  /\ st_trace (snd (getNextTuple lookupType index a s))
     = st_trace (snd (probeStep lookupType index s))
       ++ [mkEvent OpNextValue
             (fst (nextValue index
                     (st_cursor (snd (probeStep lookupType index s)))))]
  /\ obtainedBy OpNextValue s (snd (getNextTuple lookupType index a s))
  /\ fst (getNextTuple lookupType index a s)
     = negb (isNullTuple
               (fst (nextValue index
                       (st_cursor (snd (probeStep lookupType index s))))))
  /\ (~ isExactOrGeo lookupType ->
      opsOfCall s (snd (getNextTuple lookupType index a s)) = [OpNextValue]).
Proof.
  intros Hcase Hreach.
  rewrite (getNextTuple_second_statement _ _ _ _ Hreach).
  rewrite (advanceStep_advances _ _ _ _ Hcase); simpl.
  split; [reflexivity |].
  split; [rewrite probeStep_state; destruct (exactOrGeo lookupType);
          reflexivity |].
  split; [reflexivity |]. split; [reflexivity |]. split; [reflexivity |].
  split.
  - rewrite probeStep_state. unfold obtainedBy; simpl.
    destruct (exactOrGeo lookupType); simpl.
    + eexists [_], _. rewrite <- app_assoc. split; reflexivity.
    + exists [], (fst (nextValue index (st_cursor s))). split; reflexivity.
  - split; [reflexivity |].
    intros Hrange. rewrite (probeStep_range _ _ _ Hrange); simpl.
    apply opsOfCall_app.
Qed.

Lemma getNextTuple_range_or_zero_keys_advances_witness :
  let s := enter nullTuple
             (positionForLookup (listIndex scenarioIndex)
                INDEX_LOOKUP_TYPE_EQ SORT_DIRECTION_TYPE_ASC [] 0) in
  let r := getNextTuple INDEX_LOOKUP_TYPE_EQ (listIndex scenarioIndex) 0 s in
  st_tuple (snd r) = tupleOf [VInt 1; VString "a"]
  /\ obtainedBy OpNextValue s (snd r)
  /\ fst r = true.
Proof.
  intros s r.
  destruct (getNextTuple_range_or_zero_keys_advances
              INDEX_LOOKUP_TYPE_EQ (listIndex scenarioIndex) 0 s
              (or_intror eq_refl) eq_refl)
    as (_ & _ & Ht & _ & _ & Hby & Hb & _).
  split; [exact Ht | split; [exact Hby | exact Hb]].
Defined.

(** Over the list-backed index a scan positioned with no active key never
    has a row under its at-key probe, however many calls it has made: every
    one of its calls reaches the second statement and takes its tuple from
    [nextValue], whatever the lookup type. *)
Lemma list_probe_stays_empty (ix : ListIndex) (lookupType : IndexLookupType)
  (a : Z) (s : CallState IndexCursor) :
  m_match (st_cursor s) = [] ->
  m_match (st_cursor (snd (getNextTuple lookupType (listIndex ix) a s))) = [].
Proof.
  intros Hm. destruct s as [t [chain iter] tr]; simpl in *. subst chain.
  by_call_shape lookupType Hlt; simpl.
  - destruct (a =? 0); simpl; [| reflexivity].
    unfold listNextValue; simpl. destruct iter; reflexivity.
  - unfold listNextValue; simpl. destruct iter; reflexivity.
Qed.

Lemma list_zero_key_scan_always_advances (ix : ListIndex)
  (lookupType : IndexLookupType) (d : SortDirectionType) (key : Row)
  (t0 : TableTuple) (n : nat) :
  let s := snd (callRepeatedly n lookupType (listIndex ix) 0
                  (enter t0 (positionForLookup (listIndex ix)
                               lookupType d key 0))) in
  fst (probeStep lookupType (listIndex ix) s) = false
  /\ obtainedBy OpNextValue s
       (snd (getNextTuple lookupType (listIndex ix) 0 s)).
Proof.
  intros s.
  assert (Hm : m_match (st_cursor s) = []).
  { subst s.
    generalize (enter t0 (positionForLookup (listIndex ix)
                            lookupType d key 0)),
               (eq_refl : m_match (st_cursor
                            (enter t0 (positionForLookup (listIndex ix)
                                         lookupType d key 0))) = []).
    induction n as [| n IH]; intros s0 H0; simpl; [exact H0 |].
    pose proof (list_probe_stays_empty ix lookupType 0 s0 H0) as H1.
    destruct (getNextTuple lookupType (listIndex ix) 0 s0) as [b s1].
    specialize (IH s1 H1).
    destruct (callRepeatedly n lookupType (listIndex ix) 0 s1) as [bs s2].
    exact IH. }
  clearbody s.
  assert (Hp : fst (probeStep lookupType (listIndex ix) s) = false).
  { destruct s as [t [chain iter] tr]; simpl in Hm; subst chain.
    unfold probeStep, bind, assignFrom, tupleIsNull, ret; simpl.
    destruct (lookupType_eqb lookupType INDEX_LOOKUP_TYPE_EQ
              || lookupType_eqb lookupType INDEX_LOOKUP_TYPE_GEO_CONTAINS);
      reflexivity. }
  split; [exact Hp |].
  rewrite (getNextTuple_second_statement _ _ _ _ Hp).
  rewrite (advanceStep_advances _ _ _ _ (or_intror eq_refl)).
  rewrite probeStep_state. unfold obtainedBy; simpl.
  destruct (exactOrGeo lookupType); simpl.
  - eexists [_], _. rewrite <- app_assoc. split; reflexivity.
  - eexists [], _. split; reflexivity.
Qed.

(** *** Search-key construction *)

(** If every search key of a plan evaluates, so does any leading part of
    them, whatever the buffer holds. *)
Lemma buildSearchKey_take_ok (exprs : list AbstractExpression)
  (params : NValueArray) (n k : nat) (buf buf' : Row) :
  fst (buildSearchKey exprs params k buf) = true ->
  fst (buildSearchKey (take n exprs) params k buf') = true.
Proof.
  revert n k buf buf'.
  induction exprs as [| ex rest IH]; intros n k buf buf'; simpl.
  - intros _. destruct n; reflexivity.
  - destruct n as [| n]; simpl; [reflexivity |].
    destruct (eval ex params) as [v |]; simpl; [| discriminate].
    apply IH.
Qed.

(** *** The list-backed index: every scan over it ends *)

Section ListIndexFacts.

Variable ix : ListIndex.

Lemma inDirection_length (d : SortDirectionType) (l : list Row) :
  length (inDirection d l) = length l.
Proof. destruct d; simpl; auto using length_rev. Qed.

Lemma filter_exclusive_length (f g : Row -> bool) (l : list Row) :
  (forall r, f r = true -> g r = true -> False) ->
  (length (filter (fun r => f r = true) l)
   + length (filter (fun r => g r = true) l) <= length l)%nat.
Proof.
  intros Hex. induction l as [| r l IH]; simpl; [lia |].
  rewrite !filter_cons.
  destruct (decide (f r = true)) as [Hf | Hf],
           (decide (g r = true)) as [Hg | Hg]; simpl; try lia.
  exfalso; eauto.
Qed.

(** A positioned cursor never has more rows ahead than the index holds. *)
Lemma listPositionForLookup_size (lookupType : IndexLookupType)
  (d : SortDirectionType) (key : Row) (a : Z) :
  (cursorSize (listPositionForLookup ix lookupType d key a)
   <= length (li_rows ix))%nat.
Proof.
  unfold listPositionForLookup, cursorSize.
  destruct (a <=? 0); simpl.
  - rewrite inDirection_length. lia.
  - destruct lookupType; simpl; rewrite inDirection_length;
      try apply length_filter; try lia.
    + apply (filter_exclusive_length
               (fun r => is_Eq (rowVsKey ix key a r))
               (fun r => is_Gt (rowVsKey ix key a r))).
      intros r. destruct (rowVsKey ix key a r); discriminate.
    + apply (filter_exclusive_length
               (fun r => is_Eq (rowVsKey ix key a r))
               (fun r => is_Gt (rowVsKey ix key a r))).
      intros r. destruct (rowVsKey ix key a r); discriminate.
Qed.

(** A fetch that yields a row leaves strictly fewer rows ahead; a fetch
    that yields none leaves the cursor's size as it was. *)
Lemma list_getNextTuple_size (lookupType : IndexLookupType) (a : Z)
  (s : CallState IndexCursor) :
  (fst (getNextTuple lookupType (listIndex ix) a s) = true ->
   (cursorSize (st_cursor (snd (getNextTuple lookupType (listIndex ix) a s)))
    < cursorSize (st_cursor s))%nat)
  /\ (cursorSize (st_cursor (snd (getNextTuple lookupType (listIndex ix) a s)))
      <= cursorSize (st_cursor s))%nat.
Proof.
  destruct s as [t [chain iter] tr]; simpl.
  destruct (isExactOrGeo_dec lookupType) as [Hlt | Hlt].
  - rewrite (getNextTuple_exact _ _ _ _ Hlt); simpl.
    unfold listNextValueAtKey, listNextValue, cursorSize; simpl.
    destruct chain as [| r chain]; simpl.
    + destruct (a =? 0); simpl.
      * destruct iter as [| r iter]; simpl; split;
          try discriminate; intros; lia.
      * split; [discriminate | lia].
    + split; intros; lia.
  - rewrite (getNextTuple_range _ _ _ _ Hlt); simpl.
    unfold listNextValue, cursorSize; simpl.
    destruct iter as [| r iter]; simpl; split;
      try discriminate; intros; lia.
Qed.

Variables (e : IndexScanExecutor) (params : NValueArray).

Lemma list_scanLoop_ends (fuel : nat) (st : CallState IndexCursor)
  (pf : CountingPostfilter) (out : Sinks) :
  (cursorSize (st_cursor st) < fuel)%nat ->
  scanLoop (listIndex ix) e params fuel st pf out <> OutOfFuel.
Proof.
  revert st pf out.
  induction fuel as [| fuel IH]; intros st pf out Hsz; simpl; [lia |].
  pose proof (list_getNextTuple_size (m_lookupType e)
                (Z.of_nat (activeKeyCount e params)) st) as [Hlt _].
  destruct (getNextTuple (m_lookupType e) (listIndex ix)
              (Z.of_nat (activeKeyCount e params)) st) as [more st'];
    simpl in Hlt.
  destruct more; [| discriminate].
  specialize (Hlt eq_refl).
  destruct (m_data (st_tuple st')) as [row |]; [| discriminate].
  destruct (beyondEndKey (listIndex ix) e params row) as [[|] |];
    try discriminate.
  destruct (pf_eval pf row) as [[| |] pf']; try discriminate;
    apply IH; lia.
Qed.

(** With more fuel than the index has rows, the scan runs to its end. *)
Lemma list_scan_ends (key : Row) (fuel : nat) :
  (length (li_rows ix) < fuel)%nat ->
  scan (listIndex ix) e params key fuel <> OutOfFuel.
Proof.
  intros Hfuel. unfold scan. apply list_scanLoop_ends.
  pose proof (listPositionForLookup_size (m_lookupType e)
                (m_sortDirection e) key
                (Z.of_nat (activeKeyCount e params))).
  simpl in *. lia.
Qed.

(** An execution over a list-backed index therefore always ends: it
    completes, or it aborts on a key that cannot be evaluated. *)
Lemma list_p_execute_ends (fuel : nat) :
  (length (li_rows ix) < fuel)%nat ->
  fst (p_execute (listIndex ix) e params fuel) <> OutOfFuel.
Proof.
  intros Hfuel. unfold p_execute.
  destruct (buildSearchKey (take (activeKeyCount e params)
                              (m_searchKeyArray e)) params O
              (m_searchKeyBackingStore e)) as [ok key].
  destruct ok; simpl; [| discriminate].
  apply list_scan_ends. exact Hfuel.
Qed.

End ListIndexFacts.

(** *** An index without rows *)

Lemma emptyList_position (w : nat) (lookupType : IndexLookupType)
  (d : SortDirectionType) (key : Row) (a : Z) :
  listPositionForLookup (mkListIndex w []) lookupType d key a
  = mkCursor [] [].
Proof.
  unfold listPositionForLookup; simpl.
  destruct (a <=? 0); destruct lookupType, d; reflexivity.
Qed.

(** For any index: when neither operation has a row to give, whichever
    way the call goes, it returns false. *)
Lemma getNextTuple_nothing_left {Cursor : Type}
  (lookupType : IndexLookupType) (index : TableIndex Cursor) (a : Z)
  (s : CallState Cursor) :
  isNullTuple (fst (nextValueAtKey index (st_cursor s))) = true ->
  isNullTuple (fst (nextValue index (st_cursor s))) = true ->
  isNullTuple
    (fst (nextValue index (snd (nextValueAtKey index (st_cursor s)))))
  = true ->
  fst (getNextTuple lookupType index a s) = false.
Proof.
  intros Hkey Hnext Hboth.
  by_call_shape lookupType Hlt.
  - destruct (nextValueAtKey index (st_cursor s)) as [t c1]; simpl in *.
    rewrite Hkey. destruct (a =? 0); [| reflexivity].
    destruct (nextValue index c1) as [t2 c2]; simpl in *.
    now rewrite Hboth.
  - destruct (nextValue index (st_cursor s)) as [t c1]; simpl in *.
    now rewrite Hnext.
Qed.

Lemma exhausted_getNextTuple (ix : ListIndex) (lookupType : IndexLookupType)
  (a : Z) (t : TableTuple) (tr : list IndexEvent) :
  exists tr',
    getNextTuple lookupType (listIndex ix) a (mkCall t (mkCursor [] []) tr)
    = (false, mkCall nullTuple (mkCursor [] []) tr').
Proof.
  destruct (isExactOrGeo_dec lookupType) as [Hlt | Hlt].
  - rewrite (getNextTuple_exact _ _ _ _ Hlt); simpl.
    destruct (a =? 0); simpl; eauto.
  - rewrite (getNextTuple_range _ _ _ _ Hlt); simpl. eauto.
Qed.

(** C8.  Over an index with zero rows, for every lookup type, sort
    direction, search key and count of active keys, the first call to
    [getNextTuple] on the positioned cursor returns false; the scan of every
    executor completes at once with no row handed to any sink; and an
    execution whose search key evaluates completes the same way. *)
Theorem empty_index_scan_emits_nothing (w : nat) :
  (forall lookupType d key a t0,
      fst (getNextTuple lookupType (listIndex (mkListIndex w [])) a
             (enter t0 (positionForLookup (listIndex (mkListIndex w []))
                          lookupType d key a)))
      = false)
  /\ (forall e params key fuel,
         scan (listIndex (mkListIndex w [])) e params key (S fuel)
         = Completed noOutput)
  /\ (forall e params fuel,
         fst (buildSearchKey (m_searchKeyArray e) params O
                (m_searchKeyBackingStore e)) = true ->
         fst (p_execute (listIndex (mkListIndex w [])) e params (S fuel))
         = Completed noOutput).
Proof.
  assert (Hscan : forall e params key fuel,
             scan (listIndex (mkListIndex w [])) e params key (S fuel)
             = Completed noOutput).
  { intros e params key fuel. unfold scan; simpl.
    rewrite emptyList_position. unfold enter.
    destruct (exhausted_getNextTuple (mkListIndex w []) (m_lookupType e)
                (Z.of_nat (activeKeyCount e params)) nullTuple [])
      as [tr' ->].
    reflexivity. }
  split; [| split].
  - intros lookupType d key a t0. simpl.
    rewrite emptyList_position. unfold enter.
    destruct (exhausted_getNextTuple (mkListIndex w []) lookupType a t0 [])
      as [tr' ->].
    reflexivity.
  - exact Hscan.
  - intros e params fuel Hok. unfold p_execute.
    pose proof (buildSearchKey_take_ok (m_searchKeyArray e) params
                  (activeKeyCount e params) O (m_searchKeyBackingStore e)
                  (m_searchKeyBackingStore e) Hok) as Hok'.
    destruct (buildSearchKey (take (activeKeyCount e params)
                                (m_searchKeyArray e)) params O
                (m_searchKeyBackingStore e)) as [ok key].
    simpl in Hok'; subst ok; simpl. apply Hscan.
Qed.

(** *** The model on the specification's scenarios *)

(** Scenario A: exact match on key 1 yields the two rows with X = 1, in
    duplicate-chain order, and no row with X = 2. *)
Example scenario_exact_match :
  fst (p_execute (listIndex scenarioIndex) (executorOf exactPlan) [VInt 1] 4)
  = Completed
      (mkSinks [[VInt 1; VString "a"]; [VInt 1; VString "b"]] [] []).
Proof. reflexivity. Qed.

(** Scenarios B and D: greater-or-equal on key 2, ascending, projecting
    column Y, yields the Y value of (X=2,Y="c") only. *)
Example scenario_range_projected :
  fst (p_execute (listIndex scenarioIndex) (executorOf rangePlan)
         [VInt 2; VInt 9] 4)
  = Completed (mkSinks [[VString "c"]] [] []).
Proof. reflexivity. Qed.

(** Scenario C: full scan of X in {1,2,3} with offset 1 and limit 2 yields
    the row with X = 2 only. *)
Example scenario_offset_limit :
  fst (p_execute (listIndex scenarioCIndex) (executorOf fullScanPlan) [] 4)
  = Completed (mkSinks [[VInt 2]] [] []).
Proof. reflexivity. Qed.

(** A range scan stops at the first row above its end key. *)
Example scenario_end_key :
  fst (p_execute (listIndex scenarioIndex) (executorOf rangePlan)
         [VInt 1; VInt 1] 4)
  = Completed (mkSinks [[VString "a"]; [VString "b"]] [] []).
Proof. reflexivity. Qed.

(** An end key that cannot be evaluated aborts the execution at the first
    candidate row. *)
Example scenario_missing_end_key :
  fst (p_execute (listIndex scenarioIndex) (executorOf rangePlan) [VInt 1] 4)
  = Aborted EvaluationError.
Proof. reflexivity. Qed.

(** A search key that cannot be evaluated aborts the execution. *)
Example scenario_missing_parameter :
  fst (p_execute (listIndex scenarioIndex) (executorOf exactPlan) [] 4)
  = Aborted EvaluationError.
Proof. reflexivity. Qed.

(** An exact-match plan run with no active key traverses the whole
    index. *)
Example scenario_exact_without_keys :
  fst (p_execute (listIndex scenarioIndex) (executorOf optionalKeyPlan) [] 4)
  = Completed (mkSinks scenarioRows [] []).
Proof. reflexivity. Qed.

Lemma empty_index_scan_emits_nothing_witness :
  fst (p_execute (listIndex emptyIndex)
         (mkExecutor exactPlan 1 None [ParameterValueExpression 0]
            INDEX_LOOKUP_TYPE_EQ SORT_DIRECTION_TYPE_ASC false
            (Some (TempTable 0)) [VNull] None None)
         [VInt 1] 1)
  = Completed noOutput.
Proof.
  apply (proj2 (proj2 (empty_index_scan_emits_nothing 1))).
  reflexivity.
Defined.

(** *** Further properties of [getNextTuple] *)

Lemma exactOrGeo_true (lookupType : IndexLookupType) :
  exactOrGeo lookupType = true <-> isExactOrGeo lookupType.
Proof.
  unfold exactOrGeo, isExactOrGeo.
  destruct lookupType; simpl; split; intros H; auto;
    try discriminate H; destruct H as [H | H]; discriminate H.
Qed.

(** X1.  The lookup types other than exact-match and geo-contains are not
    told apart, and for them the count of active search keys is not read:
    any two such calls from the same state do the same. *)
Theorem getNextTuple_range_types_alike
  {Cursor : Type} (lookupType lookupType' : IndexLookupType)
  (index : TableIndex Cursor) (a a' : Z) (s : CallState Cursor) :
  ~ isExactOrGeo lookupType ->
  ~ isExactOrGeo lookupType' ->
  getNextTuple lookupType index a s = getNextTuple lookupType' index a' s.
Proof.
  intros H H'.
  rewrite (getNextTuple_range _ _ _ _ H), (getNextTuple_range _ _ _ _ H').
  reflexivity.
Qed.

Lemma getNextTuple_range_types_alike_witness :
  getNextTuple INDEX_LOOKUP_TYPE_GT (listIndex scenarioIndex) 1
    (enter nullTuple (mkCursor [] scenarioRows))
  = getNextTuple INDEX_LOOKUP_TYPE_LTE (listIndex scenarioIndex) 0
      (enter nullTuple (mkCursor [] scenarioRows)).
Proof.
  apply (getNextTuple_range_types_alike
           INDEX_LOOKUP_TYPE_GT INDEX_LOOKUP_TYPE_LTE).
  - intros [H | H]; discriminate H.
  - intros [H | H]; discriminate H.
Defined.

(** X2.  Exact-match and geo-contains are not told apart, and for them the
    count of active search keys is read only through the test against zero
    (a negative count acts as a positive one); when the at-key probe yields a
    row the count is not read at all. *)
Theorem getNextTuple_exact_types_alike
  {Cursor : Type} (lookupType lookupType' : IndexLookupType)
  (index : TableIndex Cursor) (a a' : Z) (s : CallState Cursor) :
  isExactOrGeo lookupType ->
  isExactOrGeo lookupType' ->
  (a = 0 <-> a' = 0)
  \/ isNullTuple (fst (nextValueAtKey index (st_cursor s))) = false ->
  getNextTuple lookupType index a s = getNextTuple lookupType' index a' s.
Proof.
  intros H H' Hcount.
  rewrite (getNextTuple_exact _ _ _ _ H), (getNextTuple_exact _ _ _ _ H').
  destruct (nextValueAtKey index (st_cursor s)) as [t c1]; simpl in *.
  destruct (isNullTuple t); [| reflexivity].
  destruct Hcount as [Hcount | Hhit]; [| discriminate Hhit].
  destruct (Z.eqb_spec a 0) as [Ha | Ha], (Z.eqb_spec a' 0) as [Ha' | Ha'];
    try reflexivity; exfalso; tauto.
Qed.

Lemma getNextTuple_exact_types_alike_witness :
  getNextTuple INDEX_LOOKUP_TYPE_EQ (listIndex scenarioIndex) 3
    (enter nullTuple (mkCursor [] scenarioRows))
  = getNextTuple INDEX_LOOKUP_TYPE_GEO_CONTAINS (listIndex scenarioIndex) (-1)
      (enter nullTuple (mkCursor [] scenarioRows)).
Proof.
  apply (getNextTuple_exact_types_alike
           INDEX_LOOKUP_TYPE_EQ INDEX_LOOKUP_TYPE_GEO_CONTAINS).
  - left; reflexivity.
  - right; reflexivity.
  - left. split; intros H; discriminate H.
Defined.

(** X3.  The index operations of a call, in full: a range call issues
    [nextValue] alone; an exact-match or geo-contains call issues the at-key
    probe, followed by [nextValue] exactly when the probe returned the null
    tuple and the count of active keys is zero.  A call thus issues one or
    two operations, never none and never more. *)
Theorem getNextTuple_operations
  {Cursor : Type} (lookupType : IndexLookupType) (index : TableIndex Cursor)
  (a : Z) (s : CallState Cursor) :
  opsOfCall s (snd (getNextTuple lookupType index a s))
  = (if exactOrGeo lookupType then
       if isNullTuple (fst (nextValueAtKey index (st_cursor s))) && (a =? 0)
       then [OpNextValueAtKey; OpNextValue]
       else [OpNextValueAtKey]
     else [OpNextValue])
  /\ (1 <= length (opsOfCall s (snd (getNextTuple lookupType index a s)))
      <= 2)%nat.
Proof.
  assert (Hops :
    opsOfCall s (snd (getNextTuple lookupType index a s))
    = (if exactOrGeo lookupType then
         if isNullTuple (fst (nextValueAtKey index (st_cursor s)))
            && (a =? 0)
         then [OpNextValueAtKey; OpNextValue]
         else [OpNextValueAtKey]
       else [OpNextValue])).
  { by_call_shape lookupType Hlt.
    - rewrite (proj2 (exactOrGeo_true lookupType) Hlt).
      destruct (nextValueAtKey index (st_cursor s)) as [t c1]; simpl.
      destruct (isNullTuple t); simpl.
      + destruct (a =? 0); simpl.
        * destruct (nextValue index c1) as [t2 c2]; simpl.
          rewrite <- app_assoc, opsOfCall_app. reflexivity.
        * rewrite opsOfCall_app. reflexivity.
      + rewrite opsOfCall_app. reflexivity.
    - destruct (exactOrGeo lookupType) eqn:Hb.
      + apply exactOrGeo_true in Hb. contradiction.
      + destruct (nextValue index (st_cursor s)) as [t c1]; simpl.
        rewrite opsOfCall_app. reflexivity. }
  split; [exact Hops |].
  rewrite Hops.
  destruct (exactOrGeo lookupType);
    [destruct (isNullTuple _ && (a =? 0)) |]; simpl; lia.
Qed.

(** X4.  When a call returns false, in full: a range call returns false
    exactly when [nextValue] gave the null tuple; an exact-match or
    geo-contains call returns false exactly when the at-key probe gave the
    null tuple and, if the count of active keys is zero, [nextValue] on the
    cursor the probe left gave the null tuple as well. *)
Theorem getNextTuple_false_iff
  {Cursor : Type} (lookupType : IndexLookupType) (index : TableIndex Cursor)
  (a : Z) (s : CallState Cursor) :
  fst (getNextTuple lookupType index a s) = false
  <-> (isExactOrGeo lookupType
       /\ isNullTuple (fst (nextValueAtKey index (st_cursor s))) = true
       /\ (a = 0 ->
           isNullTuple
             (fst (nextValue index
                     (snd (nextValueAtKey index (st_cursor s))))) = true))
      \/ (~ isExactOrGeo lookupType
          /\ isNullTuple (fst (nextValue index (st_cursor s))) = true).
Proof.
  by_call_shape lookupType Hlt.
  - destruct (nextValueAtKey index (st_cursor s)) as [t c1]; simpl.
    destruct (isNullTuple t); simpl.
    + destruct (Z.eqb_spec a 0) as [Ha | Ha].
      * destruct (nextValue index c1) as [t2 c2]; simpl.
        destruct (isNullTuple t2); simpl; split; intros H.
        -- left; auto.
        -- reflexivity.
        -- discriminate H.
        -- destruct H as [(_ & _ & H) | (H & _)];
             [specialize (H Ha); discriminate H | contradiction].
      * split; intros H; [| reflexivity].
        left. split; [exact Hlt |]. split; [reflexivity |].
        intros Ha'; contradiction.
    + split; intros H; [discriminate H |].
      destruct H as [(_ & H & _) | (H & _)];
        [discriminate H | contradiction].
  - destruct (nextValue index (st_cursor s)) as [t c1]; simpl.
    destruct (isNullTuple t); simpl; split; intros H.
    + right; auto.
    + reflexivity.
    + discriminate H.
    + destruct H as [(H & _) | (_ & H)]; [contradiction | discriminate H].
Qed.

(** X5.  An exact-match or geo-contains call whose probe returned the null
    tuple, with no active key, goes on exactly as a range call would from the
    state the probe left: same result, same tuple, same cursor, same log. *)
Theorem getNextTuple_fallback_is_range_step
  {Cursor : Type} (lookupType lookupType' : IndexLookupType)
  (index : TableIndex Cursor) (a' : Z) (s : CallState Cursor) :
  isExactOrGeo lookupType ->
  ~ isExactOrGeo lookupType' ->
  isNullTuple (fst (nextValueAtKey index (st_cursor s))) = true ->
  getNextTuple lookupType index 0 s
  = getNextTuple lookupType' index a'
      (mkCall (fst (nextValueAtKey index (st_cursor s)))
              (snd (nextValueAtKey index (st_cursor s)))
              (st_trace s
               ++ [mkEvent OpNextValueAtKey
                     (fst (nextValueAtKey index (st_cursor s)))])).
Proof.
  intros H H' Hnull.
  rewrite (getNextTuple_exact _ _ _ _ H), (getNextTuple_range _ _ _ _ H').
  destruct (nextValueAtKey index (st_cursor s)) as [t c1]; simpl in *.
  rewrite Hnull. reflexivity.
Qed.

Lemma getNextTuple_fallback_is_range_step_witness :
  getNextTuple INDEX_LOOKUP_TYPE_EQ (listIndex scenarioIndex) 0
    (enter nullTuple (mkCursor [] scenarioRows))
  = getNextTuple INDEX_LOOKUP_TYPE_GTE (listIndex scenarioIndex) 1
      (mkCall nullTuple (mkCursor [] scenarioRows)
         [mkEvent OpNextValueAtKey nullTuple]).
Proof.
  apply (getNextTuple_fallback_is_range_step
           INDEX_LOOKUP_TYPE_EQ INDEX_LOOKUP_TYPE_GTE
           (listIndex scenarioIndex) 1
           (enter nullTuple (mkCursor [] scenarioRows))).
  - left; reflexivity.
  - intros [H | H]; discriminate H.
  - reflexivity.
Defined.

(** *** Sequences of calls *)

Section Replay.

Context {Cursor : Type} (index : TableIndex Cursor).

Lemma replay_app (ops1 ops2 : list IndexOp) (c : Cursor) :
  replay index (ops1 ++ ops2) c
  = (fst (replay index ops1 c)
     ++ fst (replay index ops2 (snd (replay index ops1 c))),
     snd (replay index ops2 (snd (replay index ops1 c)))).
Proof.
  revert c. induction ops1 as [| op ops1 IH]; intros c; simpl.
  - destruct (replay index ops2 c); reflexivity.
  - destruct (applyOp index op c) as [t c1].
    rewrite IH.
    destruct (replay index ops1 c1) as [evs1 c2]; simpl.
    reflexivity.
Qed.

Lemma replay_ops (ops : list IndexOp) (c : Cursor) :
  map ev_op (fst (replay index ops c)) = ops.
Proof.
  revert c. induction ops as [| op ops IH]; intros c; simpl.
  - reflexivity.
  - destruct (applyOp index op c) as [t c1].
    specialize (IH c1).
    destruct (replay index ops c1) as [evs c2]; simpl in *.
    now rewrite IH.
Qed.

(** One call moves the cursor by the operations it logs and by nothing
    else. *)
Lemma getNextTuple_replay (lookupType : IndexLookupType) (a : Z)
  (s : CallState Cursor) :
  exists ops,
    st_trace (snd (getNextTuple lookupType index a s))
    = st_trace s ++ fst (replay index ops (st_cursor s))
    /\ st_cursor (snd (getNextTuple lookupType index a s))
       = snd (replay index ops (st_cursor s)).
Proof.
  by_call_shape lookupType Hlt.
  - destruct (nextValueAtKey index (st_cursor s)) as [t c1] eqn:Hp; simpl.
    destruct (isNullTuple t); simpl.
    + destruct (a =? 0); simpl.
      * destruct (nextValue index c1) as [t2 c2] eqn:Hn; simpl.
        exists [OpNextValueAtKey; OpNextValue]; simpl.
        rewrite Hp, Hn; simpl. rewrite <- app_assoc. split; reflexivity.
      * exists [OpNextValueAtKey]; simpl. rewrite Hp; simpl.
        split; reflexivity.
    + exists [OpNextValueAtKey]; simpl. rewrite Hp; simpl.
      split; reflexivity.
  - destruct (nextValue index (st_cursor s)) as [t c1] eqn:Hn; simpl.
    exists [OpNextValue]; simpl. rewrite Hn; simpl. split; reflexivity.
Qed.

Lemma callRepeatedly_replay (n : nat) (lookupType : IndexLookupType) (a : Z)
  (s : CallState Cursor) :
  exists ops,
    st_trace (snd (callRepeatedly n lookupType index a s))
    = st_trace s ++ fst (replay index ops (st_cursor s))
    /\ st_cursor (snd (callRepeatedly n lookupType index a s))
       = snd (replay index ops (st_cursor s)).
Proof.
  revert s. induction n as [| n IH]; intros s; simpl.
  - exists []; simpl. rewrite app_nil_r. split; reflexivity.
  - destruct (getNextTuple_replay lookupType a s) as (ops1 & Ht1 & Hc1).
    destruct (getNextTuple lookupType index a s) as [b s1]; simpl in *.
    destruct (IH s1) as (ops2 & Ht2 & Hc2).
    destruct (callRepeatedly n lookupType index a s1) as [bs s2];
      simpl in *.
    exists (ops1 ++ ops2). rewrite replay_app; simpl.
    rewrite Ht2, Hc2, Ht1, Hc1, <- app_assoc. split; reflexivity.
Qed.

(** X6.  Over any number of consecutive calls, of any lookup type, the
    cursor is moved by the index operations the calls issued and by nothing
    else: issuing those operations in order on the entry cursor gives back
    the tuples the calls were handed and the cursor they left. *)
Theorem callRepeatedly_cursor_follows_operations
  (n : nat) (lookupType : IndexLookupType) (a : Z) (s : CallState Cursor) :
  st_trace (snd (callRepeatedly n lookupType index a s))
  = st_trace s
    ++ fst (replay index
              (opsOfCall s (snd (callRepeatedly n lookupType index a s)))
              (st_cursor s))
  /\ st_cursor (snd (callRepeatedly n lookupType index a s))
     = snd (replay index
              (opsOfCall s (snd (callRepeatedly n lookupType index a s)))
              (st_cursor s)).
Proof.
  destruct (callRepeatedly_replay n lookupType a s) as (ops & Ht & Hc).
  assert (Hops : opsOfCall s (snd (callRepeatedly n lookupType index a s))
                 = ops).
  { unfold opsOfCall. rewrite Ht, drop_app_length. apply replay_ops. }
  rewrite Hops. split; assumption.
Qed.

(** Calls that each come down to one fixed operation. *)
Section OneOperation.

Variables (lookupType : IndexLookupType) (a : Z) (op : IndexOp).
Hypothesis Hstep : forall s : CallState Cursor,
  getNextTuple lookupType index a s
  = (negb (isNullTuple (fst (applyOp index op (st_cursor s)))),
     mkCall (fst (applyOp index op (st_cursor s)))
            (snd (applyOp index op (st_cursor s)))
            (st_trace s
             ++ [mkEvent op (fst (applyOp index op (st_cursor s)))])).

Lemma callRepeatedly_one_operation (n : nat) (s : CallState Cursor) :
  exists evs,
    st_trace (snd (callRepeatedly n lookupType index a s))
    = st_trace s ++ evs
    /\ map ev_op evs = replicate n op
    /\ fst (callRepeatedly n lookupType index a s)
       = map (fun ev => negb (isNullTuple (ev_result ev))) evs
    /\ st_cursor (snd (callRepeatedly n lookupType index a s))
       = cursorAfter (applyOp index op) n (st_cursor s).
Proof.
  revert s. induction n as [| n IH]; intros s; simpl.
  - exists []. rewrite app_nil_r. repeat split; reflexivity.
  - rewrite Hstep.
    set (t := fst (applyOp index op (st_cursor s))).
    set (c1 := snd (applyOp index op (st_cursor s))).
    destruct (IH (mkCall t c1 (st_trace s ++ [mkEvent op t])))
      as (evs & Ht & Hops & Hbs & Hc).
    destruct (callRepeatedly n lookupType index a
                (mkCall t c1 (st_trace s ++ [mkEvent op t]))) as [bs s2].
    simpl in *.
    exists (mkEvent op t :: evs); simpl.
    rewrite Ht, <- app_assoc, Hops, Hbs, Hc. repeat split; reflexivity.
Qed.

Lemma callRepeatedly_one_operation_log (n : nat) (s : CallState Cursor) :
  opsOfCall s (snd (callRepeatedly n lookupType index a s)) = replicate n op
  /\ fst (callRepeatedly n lookupType index a s)
     = map (fun ev => negb (isNullTuple (ev_result ev)))
         (drop (length (st_trace s))
            (st_trace (snd (callRepeatedly n lookupType index a s))))
  /\ st_cursor (snd (callRepeatedly n lookupType index a s))
     = cursorAfter (applyOp index op) n (st_cursor s).
Proof.
  destruct (callRepeatedly_one_operation n s) as (evs & Ht & Hops & Hbs & Hc).
  unfold opsOfCall. rewrite Ht, drop_app_length.
  split; [exact Hops |]. split; [exact Hbs | exact Hc].
Qed.

End OneOperation.

(** X7.  Any number of consecutive exact-match or geo-contains calls with a
    non-zero count of active keys issue one at-key probe each and never
    [nextValue], whatever the probes return; the cursor ends where that many
    probes leave it, and each returned boolean tells whether the probe of
    that call yielded a row. *)
Theorem callRepeatedly_exact_only_probes
  (n : nat) (lookupType : IndexLookupType) (a : Z) (s : CallState Cursor) :
  isExactOrGeo lookupType ->
  a <> 0 ->
  opsOfCall s (snd (callRepeatedly n lookupType index a s))
  = replicate n OpNextValueAtKey
  /\ fst (callRepeatedly n lookupType index a s)
     = map (fun ev => negb (isNullTuple (ev_result ev)))
         (drop (length (st_trace s))
            (st_trace (snd (callRepeatedly n lookupType index a s))))
  /\ st_cursor (snd (callRepeatedly n lookupType index a s))
     = cursorAfter (nextValueAtKey index) n (st_cursor s).
Proof.
  intros Hlt Ha.
  apply (callRepeatedly_one_operation_log lookupType a OpNextValueAtKey).
  intros s0. rewrite (getNextTuple_exact _ _ _ _ Hlt); simpl.
  destruct (nextValueAtKey index (st_cursor s0)) as [t c1]; simpl.
  assert (Hz : (a =? 0) = false) by (apply Z.eqb_neq; exact Ha).
  rewrite Hz. destruct (isNullTuple t); reflexivity.
Qed.

(** X8.  Any number of consecutive range calls issue one [nextValue] each
    and never the at-key probe, whatever the count of active keys; the
    cursor ends where that many [nextValue] leave it, and each returned
    boolean tells whether the [nextValue] of that call yielded a row. *)
Theorem callRepeatedly_range_only_advances
  (n : nat) (lookupType : IndexLookupType) (a : Z) (s : CallState Cursor) :
  ~ isExactOrGeo lookupType ->
  opsOfCall s (snd (callRepeatedly n lookupType index a s))
  = replicate n OpNextValue
  /\ fst (callRepeatedly n lookupType index a s)
     = map (fun ev => negb (isNullTuple (ev_result ev)))
         (drop (length (st_trace s))
            (st_trace (snd (callRepeatedly n lookupType index a s))))
  /\ st_cursor (snd (callRepeatedly n lookupType index a s))
     = cursorAfter (nextValue index) n (st_cursor s).
Proof.
  intros Hlt.
  apply (callRepeatedly_one_operation_log lookupType a OpNextValue).
  intros s0. rewrite (getNextTuple_range _ _ _ _ Hlt); simpl.
  destruct (nextValue index (st_cursor s0)) as [t c1]; reflexivity.
Qed.

End Replay.

Lemma callRepeatedly_exact_only_probes_witness :
  let s := enter nullTuple
             (positionForLookup (listIndex scenarioIndex)
                INDEX_LOOKUP_TYPE_EQ SORT_DIRECTION_TYPE_ASC [VInt 1] 1) in
  opsOfCall s
    (snd (callRepeatedly 4 INDEX_LOOKUP_TYPE_EQ (listIndex scenarioIndex) 1 s))
  = replicate 4 OpNextValueAtKey
  /\ fst (callRepeatedly 4 INDEX_LOOKUP_TYPE_EQ (listIndex scenarioIndex) 1 s)
     = [true; true; false; false].
Proof.
  intros s.
  split; [| reflexivity].
  apply (callRepeatedly_exact_only_probes (listIndex scenarioIndex) 4
           INDEX_LOOKUP_TYPE_EQ 1 s).
  - left; reflexivity.
  - lia.
Defined.

Lemma callRepeatedly_range_only_advances_witness :
  let s := enter nullTuple
             (positionForLookup (listIndex scenarioIndex)
                INDEX_LOOKUP_TYPE_GTE SORT_DIRECTION_TYPE_ASC [VInt 2] 1) in
  opsOfCall s
    (snd (callRepeatedly 3 INDEX_LOOKUP_TYPE_GTE (listIndex scenarioIndex) 1 s))
  = replicate 3 OpNextValue
  /\ fst (callRepeatedly 3 INDEX_LOOKUP_TYPE_GTE (listIndex scenarioIndex) 1 s)
     = [true; false; false].
Proof.
  intros s.
  split; [| reflexivity].
  apply (callRepeatedly_range_only_advances (listIndex scenarioIndex) 3
           INDEX_LOOKUP_TYPE_GTE 1 s).
  intros [H | H]; discriminate H.
Defined.
